(** * Rollback: LIFO compensating actions with a scoped enter/exit contract

    A shallow embedding of [rollback.py] (class [Rollback]) and the
    properties of its step registry, its exit policy and its traceback scan.

    Python objects are modelled as follows.
    - The instance is a record with the four attributes set by [__init__]
      and the address that [is] compares.
    - [steps] is a Python list: [append] adds at the tail, [pop] takes the
      tail, [clear] empties it.
    - A callback is opaque: all that is known of it is whether
      [asyncio.iscoroutinefunction] holds and what its body does to the
      caller's world (return or raise).  Callbacks act on that world only;
      the registry is not aliased by them.
    - A coroutine object is a suspended computation; [await] resumes it
      and refuses anything else with [TypeError].
    - Of asyncio the machine keeps whether a loop is running in the
      thread, whether the thread has a current loop for
      [asyncio.get_event_loop()] to return when none is running (it has
      none left after an [asyncio.run]), and the queue of tasks created
      on the running loop and not run yet. *)

From stdpp Require Import gmap strings list fin_maps.
From Equations Require Import Equations.


(** ** Outcomes and the state monad of method bodies *)

Section Outcome.
Context {Exc : Type}.

(** Exceptions: the built-in ones the model can raise, and the caller's. *)
Inductive exn : Type :=
| TypeError
| IndexError
| AttributeError
| RuntimeError
| UserError (e : Exc).

Inductive result (A : Type) : Type :=
| Returned (a : A)
| Raised (e : exn).
End Outcome.

Arguments exn : clear implicits.
Arguments result : clear implicits.
Arguments Returned {Exc A} a.
Arguments Raised {Exc A} e.

(** A method body over a state [S]: it returns or raises, and the state it
    leaves behind is kept in both cases (Python undoes nothing on raise). *)
Definition M (Exc S A : Type) : Type := S -> result Exc A * S.

Definition ret {Exc S A} (a : A) : M Exc S A := fun s => (Returned a, s).
Definition raise {Exc S A} (e : exn Exc) : M Exc S A := fun s => (Raised e, s).
Definition bind {Exc S A B} (c : M Exc S A) (k : A -> M Exc S B) : M Exc S B :=
  fun s =>
    match c s with
    | (Returned a, s') => k a s'
    | (Raised e, s') => (Raised e, s')
    end.
Definition gets {Exc S A} (f : S -> A) : M Exc S A := fun s => (Returned (f s), s).
Definition modify {Exc S} (f : S -> S) : M Exc S unit := fun s => (Returned tt, f s).

Declare Scope py_scope.
Delimit Scope py_scope with py.
Notation "x <- c ;; k" := (bind c (fun x => k))
  (at level 100, c at next level, right associativity) : py_scope.
Notation "c ;;; k" := (bind c (fun _ => k))
  (at level 100, right associativity) : py_scope.

(** A value together with the equation that names it, for the case
    splits of well-founded definitions. *)
Definition inspect {A} (a : A) : {b : A | a = b} := exist _ a eq_refl.

(** ** Python lists: [pop] *)

(** [list.pop()]: removes and returns the last item; there is none in an
    empty list ([IndexError]). *)
Definition pop {A} (l : list A) : option (A * list A) :=
  match reverse l with
  | [] => None
  | x :: r => Some (x, reverse r)
  end.

(** ** Tracebacks and frames *)

(** What the scan reads of a frame: [f_locals] and [f_code.co_name].
    Local variables are held by reference (an address). *)
Record code := { co_name : string }.
Record frame := { f_locals : gmap string nat; f_code : code }.

(** A traceback object: one entry and the link to the next, or [None]. *)
#[warnings="-register-all"]
Inductive traceback : Type :=
| Traceback (tb_frame : frame) (tb_next : option traceback).

Definition tb_frame (tb : traceback) : frame :=
  match tb with Traceback f _ => f end.
Definition tb_next (tb : traceback) : option traceback :=
  match tb with Traceback _ n => n end.

(** The frames of all entries of a traceback, outermost first. *)
Fixpoint tb_entries (tb : traceback) : list frame :=
  match tb with
  | Traceback f None => [f]
  | Traceback f (Some n) => f :: tb_entries n
  end.

(** The traceback with the given entries; [f] is the outermost. *)
Fixpoint tb_of_entries (f : frame) (l : list frame) : traceback :=
  match l with
  | [] => Traceback f None
  | g :: l' => Traceback f (Some (tb_of_entries g l'))
  end.

(** [Rollback._frames]: [frame = traceback; while frame.tb_next:
    frame = frame.tb_next; yield frame.tb_frame]. *)
Fixpoint _frames (tb : traceback) : list frame :=
  match tb_next tb with
  | None => []
  | Some next => tb_frame next :: _frames next
  end.

(** ** The instance and the heap it lives on *)

Section Registry.
Context {Callback Value Exc ExcType World : Type}.

(** One entry of [steps]: the tuple [(callback, args, kwargs)]. *)
Definition PendingStep : Type := Callback * list Value * gmap string Value.

(** The attributes of a [Rollback] instance, and its address ([id(self)],
    what [is] compares). *)
Record Rollback := {
  oid : nat;
  steps : list PendingStep;
  on_error : bool;
  on_success : bool;
  raise_error : bool
}.

Definition set_steps (l : list PendingStep) (r : Rollback) : Rollback :=
  {| oid := oid r; steps := l; on_error := on_error r;
     on_success := on_success r; raise_error := raise_error r |}.

(** [Rollback.__init__]; [Rollback_default] takes the defaults of its
    signature. *)
Definition __init__ (addr : nat) (on_error on_success raise_error : bool) : Rollback :=
  {| oid := addr; steps := []; on_error := on_error;
     on_success := on_success; raise_error := raise_error |}.

Definition Rollback_default (addr : nat) : Rollback := __init__ addr false false true.

(** The heap a coroutine runs on: the instance, the world the callbacks
    act on, and the log of the callbacks run so far, oldest first, each
    with the exception it raised if it did. *)
Record heap := {
  self : Rollback;
  world : World;
  calls : list (PendingStep * option (exn Exc))
}.

Definition with_self (f : Rollback -> Rollback) (h : heap) : heap :=
  {| self := f (self h); world := world h; calls := calls h |}.
Definition with_world (w : World) (h : heap) : heap :=
  {| self := self h; world := w; calls := calls h |}.
Definition log_call (s : PendingStep) (e : option (exn Exc)) (h : heap) : heap :=
  {| self := self h; world := world h; calls := calls h ++ [(s, e)] |}.

(** The steps run so far, oldest first. *)
Definition invoked (h : heap) : list PendingStep := (calls h).*1.

(** A Python value, as far as [await] tells values apart: a coroutine
    object is a suspended body, anything else is not awaitable. *)
#[warnings="-register-all"]
Inductive pyval : Type :=
| PyNone
| PyBool (b : bool)
| PyCoroutine (c : heap -> result Exc pyval * heap).

Abbreviation H := (M Exc heap).

(** [await v] *)
Definition await_ (v : pyval) : H pyval :=
  match v with
  | PyCoroutine c => c
  | PyNone | PyBool _ => raise TypeError
  end.

(** What is known of the callbacks. *)
Variable iscoroutinefunction : Callback -> bool.
Variable body : Callback -> list Value -> gmap string Value -> World -> result Exc unit * World.

(** Running a callback's body on the world, and logging it.  What the
    body returns is dropped by every caller here, so it is [None]. *)
Definition run_body (callback : Callback) (args : list Value)
    (kwargs : gmap string Value) : H pyval :=
  fun h =>
    match body callback args kwargs (world h) with
    | (Returned _, w) =>
        (Returned PyNone, log_call (callback, args, kwargs) None (with_world w h))
    | (Raised e, w) =>
        (Raised e, log_call (callback, args, kwargs) (Some e) (with_world w h))
    end.

(** Calling [callback] on [args] and [kwargs]: a coroutine function
    returns a coroutine object without running anything; any other
    callable runs its body. *)
Definition call (callback : Callback) (args : list Value)
    (kwargs : gmap string Value) : H pyval :=
  if iscoroutinefunction callback
  then ret (PyCoroutine (run_body callback args kwargs))
  else run_body callback args kwargs.

(** The steps of a list called one after the other, first to last, each
    on the arguments it holds, up to the first that raises: what it is
    for a list of steps to be invoked in that order. *)
Fixpoint invoke_in_order (l : list PendingStep) (w : World) : result Exc unit * World :=
  match l with
  | [] => (Returned tt, w)
  | (callback, args, kwargs) :: l' =>
      match body callback args kwargs w with
      | (Returned _, w') => invoke_in_order l' w'
      | (Raised e, w') => (Raised e, w')
      end
  end.

(** [Rollback.add_step]: [self.steps.append((callback, args, kwargs))]. *)
Definition add_step (callback : Callback) (args : list Value)
    (kwargs : gmap string Value) (r : Rollback) : Rollback :=
  set_steps (steps r ++ [(callback, args, kwargs)]) r.

(** [Rollback.clear_steps]: [self.steps.clear()]. *)
Definition clear_steps (r : Rollback) : Rollback := set_steps [] r.

(** One turn of the loop of [do_rollback]:
    [callback, args, kwargs = self.steps.pop()], then the call, awaited
    if [callback] is a coroutine function. *)
Definition do_rollback_turn : H pyval :=
  (l <- gets (fun h => steps (self h)) ;;
   match pop l with
   | None => raise IndexError
   | Some ((callback, args, kwargs), rest) =>
       modify (with_self (set_steps rest)) ;;;
       if iscoroutinefunction callback
       then (c <- call callback args kwargs ;; await_ c)
       else call callback args kwargs
   end)%py.

(** The heap after a turn: the step [s] was popped, leaving [l], and its
    body has run, leaving the world [w] and raising [e] if it raised. *)
Definition after_turn (l : list PendingStep) (s : PendingStep)
    (e : option (exn Exc)) (w : World) (h : heap) : heap :=
  {| self := set_steps l (self h); world := w; calls := calls h ++ [(s, e)] |}.

(** [Rollback.do_rollback], the body of the coroutine:
    [while self.steps:] one turn.  The list gets shorter by one at
    each turn. *)
Equations? do_rollback (h : heap) : result Exc pyval * heap
  by wf (length (steps (self h))) lt :=
  do_rollback h with inspect (steps (self h)) := {
    | exist _ nil _ := (Returned PyNone, h);
    | exist _ (cons _ _) Hsteps with inspect (do_rollback_turn h) := {
        | exist _ (Returned _, h') Hturn := do_rollback h';
        | exist _ (Raised e, h') _ := (Raised e, h') } }.
Proof.
  revert Hturn.
  cbv [do_rollback_turn bind gets modify call await_ run_body ret raise pop].
  rewrite <- (length_reverse (steps (self h))).
  destruct (reverse (steps (self h))) as [|[[callback args] kwargs] rest]; [done|].
  simpl. destruct (iscoroutinefunction callback); simpl;
    destruct (body callback args kwargs (world h)) as [[[]|e] w];
    intros Heq; inversion Heq; subst; simpl; rewrite length_reverse; lia.
Qed.

(** ** The event loop and the exit of the scope *)

(** How a coroutine was handed over to asyncio. *)
Inductive launch : Type :=
| by_create_task
| by_run.

(** The machine: the heap; whether an event loop is running in this
    thread; whether, when none is running, [asyncio.get_event_loop()]
    has a loop to return (the thread has a current loop, or it is the
    main thread and no loop was ever set, in which case one is made and
    set); the tasks created on the running loop that have not run yet;
    and the log of the coroutines handed over to asyncio so far. *)
Record machine := {
  mem : heap;
  running : bool;
  current_loop : bool;
  tasks : list (heap -> result Exc pyval * heap);
  launches : list launch
}.

Abbreviation L := (M Exc machine).

Definition liftH {A} (c : H A) : L A :=
  fun m =>
    let '(r, h) := c (mem m) in
    (r, {| mem := h; running := running m; current_loop := current_loop m;
           tasks := tasks m; launches := launches m |}).

(** [c], and then [f] on the machine whether [c] returned or raised
    ([try: c finally: f]). *)
Definition finally_ {A} (c : L A) (f : machine -> machine) : L A :=
  fun m => let '(r, m') := c m in (r, f m').

(** [asyncio.get_event_loop().is_running()]: [get_event_loop] returns
    the running loop if there is one; otherwise the current loop of the
    thread, which is not running; and raises [RuntimeError] when the
    thread has none. *)
Definition is_running : L bool :=
  (r <- gets running ;;
   if r then ret true
   else (c <- gets current_loop ;;
         if c then ret false else raise RuntimeError))%py.

(** [asyncio.create_task(coro)]: refused without a running loop;
    otherwise the coroutine is queued on the loop and the call returns at
    once; nothing of its body has run. *)
Definition create_task (coro : pyval) : L unit :=
  (r <- gets running ;;
   if r
   then match coro with
        | PyCoroutine c =>
            modify (fun m => {| mem := mem m; running := running m;
                                current_loop := current_loop m;
                                tasks := tasks m ++ [c];
                                launches := launches m ++ [by_create_task] |})
        | PyNone | PyBool _ => raise TypeError
        end
   else raise RuntimeError)%py.

(** The runner of [asyncio.run] closing: [set_event_loop(None)]. *)
Definition close_runner (m : machine) : machine :=
  {| mem := mem m; running := running m; current_loop := false;
     tasks := tasks m; launches := launches m |}.

(** [asyncio.run(coro)]: refused inside a running loop; otherwise the
    coroutine runs to its end on a new loop and what it raises comes
    out; either way the runner closes and leaves the thread without a
    current loop. *)
Definition asyncio_run (coro : pyval) : L pyval :=
  (r <- gets running ;;
   if r then raise RuntimeError
   else (modify (fun m => {| mem := mem m; running := running m;
                             current_loop := current_loop m;
                             tasks := tasks m;
                             launches := launches m ++ [by_run] |}) ;;;
         finally_ (liftH (await_ coro)) close_runner))%py.

(** The loop taking up its oldest task. *)
Definition run_next_task (m : machine) : result Exc pyval * machine :=
  match tasks m with
  | [] => (Returned PyNone, m)
  | c :: q =>
      let '(r, h) := c (mem m) in
      (r, {| mem := h; running := running m; current_loop := current_loop m;
             tasks := q; launches := launches m |})
  end.

(** A caller changing the heap between two exits. *)
Definition with_mem (f : heap -> heap) (m : machine) : machine :=
  {| mem := f (mem m); running := running m; current_loop := current_loop m;
     tasks := tasks m; launches := launches m |}.

(** The test of the loop in [_method_in_traceback]:
    [this = frame.f_locals.get("self")] and
    [this is self and frame.f_code.co_name == name]. *)
Definition frame_is_method (r : Rollback) (name : string) (frame : frame) : bool :=
  let this := f_locals frame !! "self"%string in
  bool_decide (this = Some (oid r)) && bool_decide (co_name (f_code frame) = name).

(** [Rollback._method_in_traceback]: the flag starts false and the loop
    over [self._frames(traceback)] sets it and breaks at the first frame
    that passes the test. *)
Definition _method_in_traceback (r : Rollback) (name : string) (tb : traceback) : bool :=
  (fix scan (frames : list frame) : bool :=
     match frames with
     | [] => false
     | frame :: frames' => if frame_is_method r name frame then true else scan frames'
     end) (_frames tb).

(** [error = bool(traceback is not None)] *)
Definition error_flag (exception_type : option ExcType) (exception_value : option Exc)
    (tb : option traceback) : bool :=
  bool_decide (tb <> None).

(** [Rollback._handle_exit] *)
Definition _handle_exit (exception_type : option ExcType) (exception_value : option Exc)
    (tb : option traceback) : L bool :=
  (r <- gets (fun m => self (mem m)) ;;
   let error := error_flag exception_type exception_value tb in
   let suppress_error := negb (raise_error r) in
   (if (error && on_error r) || (on_success r && negb error)
    then (loop_running <- is_running ;;
          if loop_running
          then create_task (PyCoroutine do_rollback)
          else (asyncio_run (PyCoroutine do_rollback) ;;; ret tt))
    else ret tt) ;;;
   if error && suppress_error
   then match tb with
        | Some t => ret (negb (_method_in_traceback r "do_rollback" t))
        | None => raise AttributeError
        end
   else ret suppress_error)%py.

(** [Rollback.__enter__] and [Rollback.__aenter__]: [return self]. *)
Definition __enter__ : L Rollback := gets (fun m => self (mem m)).
Definition __aenter__ : L Rollback := gets (fun m => self (mem m)).

(** [Rollback.__exit__]: [return self._handle_exit(...)]. *)
Definition __exit__ (exception_type : option ExcType) (exception_value : option Exc)
    (tb : option traceback) : L bool :=
  _handle_exit exception_type exception_value tb.

(** [Rollback.__aexit__]: [return await self._handle_exit(...)].
    [_handle_exit] is a plain method: what is awaited is the [bool] it
    has returned. *)
Definition __aexit__ (exception_type : option ExcType) (exception_value : option Exc)
    (tb : option traceback) : L pyval :=
  (b <- _handle_exit exception_type exception_value tb ;;
   liftH (await_ (PyBool b)))%py.

(** ** Callers *)

(** The calls a caller makes on an instance, one after the other.  A
    [do_rollback] is awaited; when it raises, the caller catches the
    exception and goes on. *)
Inductive op : Type :=
| op_add_step (callback : Callback) (args : list Value) (kwargs : gmap string Value)
| op_clear_steps
| op_do_rollback.

Definition exec_op (o : op) : H pyval :=
  match o with
  | op_add_step callback args kwargs =>
      (modify (with_self (add_step callback args kwargs)) ;;; ret PyNone)%py
  | op_clear_steps => (modify (with_self clear_steps) ;;; ret PyNone)%py
  | op_do_rollback => do_rollback
  end.

Definition run_ops (ops : list op) (h : heap) : heap :=
  fold_left (fun h o => snd (exec_op o h)) ops h.

(** The steps a caller has registered, in the order of the calls. *)
Definition registered (ops : list op) : list PendingStep :=
  flat_map (fun o => match o with
                     | op_add_step callback args kwargs => [(callback, args, kwargs)]
                     | _ => []
                     end) ops.

(** Registering a list of steps in order on an instance. *)
Definition add_steps (l : list PendingStep) (r : Rollback) : Rollback :=
  fold_left (fun r '(callback, args, kwargs) => add_step callback args kwargs r) l r.

End Registry.

(** ** A concrete caller

    Callbacks are numbered; the even ones are coroutine functions.  A
    callback appends its positional arguments to the world, a list of
    numbers, except callback 7, which raises. *)

Definition ex_iscoroutinefunction (callback : nat) : bool := Nat.even callback.

Definition ex_body (callback : nat) (args : list nat) (kwargs : gmap string nat)
    (w : list nat) : result string unit * list nat :=
  if decide (callback = 7) then (Raised (UserError "boom"%string), w)
  else (Returned tt, w ++ args).

Definition ex_step (callback arg : nat) : @PendingStep nat nat := (callback, [arg], ∅).

(** A step registered with a keyword argument as well. *)
Definition ex_step_kw (callback arg : nat) (key : string) (val : nat) : @PendingStep nat nat :=
  (callback, [arg], {[ key := val ]}).

(** [with Rollback() as rollback:] at address 1, nothing run yet. *)
Definition ex_heap (r : @Rollback nat nat) : @heap nat nat string (list nat) :=
  {| self := r; world := []; calls := [] |}.

(** [add_step(f, 0); add_step(f, 1, key=9); add_step(f, 2)] with [f]
    callback 3 *)
Definition ex_three : @Rollback nat nat :=
  add_steps [ex_step 3 0; ex_step_kw 3 1 "key" 9; ex_step 3 2] (Rollback_default 1).

(** Four steps, the third of which raises when run. *)
Definition ex_failing : @Rollback nat nat :=
  add_steps [ex_step 3 0; ex_step 4 1; ex_step 7 2; ex_step 5 3] (Rollback_default 1).

(** A caller that registers three steps, rolls back into the raising
    one, registers again, rolls back, registers, discards, and rolls
    back once more. *)
Definition ex_ops : list (@op nat nat) :=
  [op_add_step 3 [0] ∅; op_add_step 7 [1] ∅; op_add_step 4 [2] ∅;
   op_do_rollback; op_add_step 5 [3] ∅; op_do_rollback;
   op_add_step 6 [4] ∅; op_clear_steps; op_do_rollback].

(** [with Rollback(...) as rollback:] in plain code in the main thread,
    no loop running and asyncio not used yet. *)
Definition ex_machine (r : @Rollback nat nat) : @machine nat nat string (list nat) :=
  {| mem := ex_heap r; running := false; current_loop := true;
     tasks := []; launches := [] |}.

(** The same inside a coroutine driven by a running loop. *)
Definition ex_machine_async (r : @Rollback nat nat) : @machine nat nat string (list nat) :=
  {| mem := ex_heap r; running := true; current_loop := true;
     tasks := []; launches := [] |}.

(** [Rollback(raise_error=False)] *)
Definition ex_quiet : @Rollback nat nat := __init__ 1 false false false.

(** [Rollback(on_error=True)] with one step *)
Definition ex_on_error : @Rollback nat nat :=
  add_steps [ex_step 3 0] (__init__ 1 true false true).

(** [Rollback(on_success=True)] with one step *)
Definition ex_on_success : @Rollback nat nat :=
  add_steps [ex_step 3 0] (__init__ 1 false true true).

(** [Rollback(on_error=True, raise_error=False)] with two steps, the
    second of which raises when run. *)
Definition ex_on_error_failing : @Rollback nat nat :=
  add_steps [ex_step 3 0; ex_step 7 1] (__init__ 1 true false false).

(** A frame of the method [do_rollback] of the instance at address 1, and
    a frame of the caller. *)
Definition ex_rollback_frame : frame :=
  {| f_locals := {[ "self"%string := 1 ]}; f_code := {| co_name := "do_rollback" |} |}.
Definition ex_caller_frame : frame :=
  {| f_locals := ∅; f_code := {| co_name := "main" |} |}.

(** * Properties *)

(** ** [pop] and tracebacks *)

Lemma pop_nil {A} : pop (@nil A) = None.
Proof. reflexivity. Qed.

Lemma pop_snoc {A} (l : list A) (x : A) : pop (l ++ [x]) = Some (x, l).
Proof. unfold pop. by rewrite reverse_snoc, reverse_involutive. Qed.

Lemma traceback_ind' (P : traceback -> Prop) :
  (forall f, P (Traceback f None)) ->
  (forall f next, P next -> P (Traceback f (Some next))) ->
  forall tb, P tb.
Proof.
  intros Hnone Hsome.
  fix IH 1. intros [f [next|]]; [apply Hsome, IH | apply Hnone].
Qed.

Lemma tb_entries_of_entries f l : tb_entries (tb_of_entries f l) = f :: l.
Proof. revert f. induction l as [|g l IH]; intros f; simpl; [done | by rewrite IH]. Qed.

Lemma tb_of_entries_tb_entries tb :
  exists f l, tb_entries tb = f :: l /\ tb = tb_of_entries f l.
Proof.
  induction tb as [f|f next (g & l & Hg & ->)] using traceback_ind'.
  - by exists f, [].
  - exists f, (g :: l). simpl. by rewrite Hg.
Qed.

(** [_frames] yields every entry but the first. *)
Lemma _frames_tail tb : _frames tb = tail (tb_entries tb).
Proof.
  induction tb as [f|f next IH] using traceback_ind'; [done|].
  simpl. rewrite IH. by destruct next as [g [n|]].
Qed.

Lemma _frames_of_entries f l : _frames (tb_of_entries f l) = l.
Proof. by rewrite _frames_tail, tb_entries_of_entries. Qed.

Section RegistryFacts.
Context {Callback Value Exc ExcType World : Type}.
Variable iscoroutinefunction : Callback -> bool.
Variable body : Callback -> list Value -> gmap string Value -> World -> result Exc unit * World.

Local Abbreviation PendingStep := (@PendingStep Callback Value).
Local Abbreviation Rollback := (@Rollback Callback Value).
Local Abbreviation heap := (@heap Callback Value Exc World).
Local Abbreviation op := (@op Callback Value).
Local Abbreviation machine := (@machine Callback Value Exc World).
Local Abbreviation do_rollback := (do_rollback iscoroutinefunction body).
Local Abbreviation do_rollback_turn := (do_rollback_turn iscoroutinefunction body).
Local Abbreviation _handle_exit := (@_handle_exit Callback Value Exc ExcType World iscoroutinefunction body).
Local Abbreviation __exit__ := (@__exit__ Callback Value Exc ExcType World iscoroutinefunction body).
Local Abbreviation __aexit__ := (@__aexit__ Callback Value Exc ExcType World iscoroutinefunction body).
Local Abbreviation exec_op := (exec_op iscoroutinefunction body).
Local Abbreviation run_ops := (run_ops iscoroutinefunction body).

(** ** The loop of [do_rollback] *)

Lemma do_rollback_turn_snoc (h : heap) l callback args kwargs :
  steps (self h) = l ++ [(callback, args, kwargs)] ->
  do_rollback_turn h =
    match body callback args kwargs (world h) with
    | (Returned _, w) => (Returned PyNone, after_turn l (callback, args, kwargs) None w h)
    | (Raised e, w) => (Raised e, after_turn l (callback, args, kwargs) (Some e) w h)
    end.
Proof.
  intros Hs. cbv [do_rollback_turn bind gets modify call await_ run_body ret raise].
  rewrite Hs, pop_snoc. simpl.
  by destruct (iscoroutinefunction callback); simpl;
    destruct (body callback args kwargs (world h)) as [[[]|e] w].
Qed.

Lemma do_rollback_eq (h : heap) :
  do_rollback h =
    match steps (self h) with
    | [] => (Returned PyNone, h)
    | _ :: _ =>
        match do_rollback_turn h with
        | (Returned _, h') => do_rollback h'
        | (Raised e, h') => (Raised e, h')
        end
    end.
Proof.
  funelim (do_rollback h).
  all: repeat match goal with
              | Hs : steps (self ?h) = _ |- context [steps (self ?h)] => rewrite Hs
              | Ht : do_rollback_turn ?h = _ |- context [do_rollback_turn ?h] => rewrite Ht
              end; done.
Qed.

Lemma do_rollback_nil (h : heap) :
  steps (self h) = [] -> do_rollback h = (Returned PyNone, h).
Proof. intros Hs. by rewrite do_rollback_eq, Hs. Qed.

Lemma do_rollback_snoc (h : heap) l callback args kwargs :
  steps (self h) = l ++ [(callback, args, kwargs)] ->
  do_rollback h =
    match body callback args kwargs (world h) with
    | (Returned _, w) => do_rollback (after_turn l (callback, args, kwargs) None w h)
    | (Raised e, w) => (Raised e, after_turn l (callback, args, kwargs) (Some e) w h)
    end.
Proof.
  intros Hs. rewrite do_rollback_eq, (do_rollback_turn_snoc _ _ _ _ _ Hs), Hs.
  destruct l; simpl; by destruct (body callback args kwargs (world h)) as [[[]|e] w].
Qed.

(** What one [do_rollback] does, whatever the callbacks: it runs the
    steps of a suffix [post] of the list, last first, and leaves the
    prefix [pre].  When it returns, the prefix is empty and every step
    returned; when it raises, the exception is that of the last step run,
    which is the first of [post]. *)
Lemma do_rollback_spec (h : heap) :
  exists pre post,
    steps (self h) = pre ++ post /\
    self (do_rollback h).2 = set_steps pre (self h) /\
    match (do_rollback h).1 with
    | Returned v =>
        v = PyNone /\ pre = [] /\
        calls (do_rollback h).2 = calls h ++ ((fun s => (s, None)) <$> reverse post)
    | Raised e =>
        exists callback args kwargs post' w,
          post = (callback, args, kwargs) :: post' /\
          calls (do_rollback h).2 =
            calls h ++ ((fun s => (s, None)) <$> reverse post')
                    ++ [((callback, args, kwargs), Some e)] /\
          body callback args kwargs w = (Raised e, world (do_rollback h).2)
    end.
Proof.
  remember (steps (self h)) as l eqn:Hl. symmetry in Hl.
  revert h Hl. induction l as [|[[callback args] kwargs] l IH] using rev_ind; intros h Hl.
  - exists [], []. rewrite (do_rollback_nil _ Hl). simpl.
    split; [done|]. split; [by destruct h as [[] ? ?]; simpl in *; subst|].
    by rewrite app_nil_r.
  - rewrite (do_rollback_snoc _ _ _ _ _ Hl).
    destruct (body callback args kwargs (world h)) as [[[]|e] w] eqn:Hb.
    + destruct (IH (after_turn l (callback, args, kwargs) None w h) eq_refl)
        as (pre & post & Hsplit & Hself & Hres).
      exists pre, (post ++ [(callback, args, kwargs)]).
      split; [by rewrite Hsplit, app_assoc|].
      split; [by rewrite Hself|].
      destruct (do_rollback _).1 as [v|e].
      * destruct Hres as (-> & -> & ->). simpl.
        by rewrite reverse_snoc, fmap_cons, <- app_assoc.
      * destruct Hres as (c1 & a1 & k1 & post' & w1 & -> & -> & Hb1).
        exists c1, a1, k1, (post' ++ [(callback, args, kwargs)]), w1.
        split; [done|]. split; [|done]. simpl.
        by rewrite reverse_snoc, fmap_cons, <- !app_assoc.
    + exists l, [(callback, args, kwargs)]. simpl.
      split; [done|]. split; [done|].
      exists callback, args, kwargs, [], (world h). by rewrite Hb.
Qed.

(** The outcome and the world of a [do_rollback] are those of calling
    the pending steps last first. *)
Lemma do_rollback_world (h : heap) :
  invoke_in_order body (reverse (steps (self h))) (world h) =
    (match (do_rollback h).1 with
     | Returned _ => Returned tt
     | Raised e => Raised e
     end, world (do_rollback h).2).
Proof.
  remember (steps (self h)) as l eqn:Hl. symmetry in Hl.
  revert h Hl. induction l as [|[[callback args] kwargs] l IH] using rev_ind; intros h Hl.
  - by rewrite (do_rollback_nil _ Hl).
  - rewrite (do_rollback_snoc _ _ _ _ _ Hl), reverse_snoc. simpl.
    destruct (body callback args kwargs (world h)) as [[[]|e] w]; [|done].
    apply (IH (after_turn l (callback, args, kwargs) None w h) eq_refl).
Qed.

Lemma add_steps_flags (l : list PendingStep) (r : Rollback) :
  set_steps [] (add_steps l r) = set_steps [] r.
Proof.
  revert r. induction l as [|[[callback args] kwargs] l IH]; intros r; simpl; [done|].
  by rewrite IH.
Qed.

Lemma steps_add_steps (l : list PendingStep) (r : Rollback) :
  steps (add_steps l r) = steps r ++ l.
Proof.
  revert r. induction l as [|[[callback args] kwargs] l IH]; intros r; simpl.
  - by rewrite app_nil_r.
  - rewrite IH. simpl. by rewrite <- app_assoc.
Qed.

(** ** LIFO order *)

(** C1. For every list [l] of steps registered in order with [add_step]
    on a new instance, a [do_rollback] in which no step raises calls
    exactly the steps of [l] in reverse order, once each, each on the
    arguments captured by [add_step].  That is: a [do_rollback] that
    returns has logged the steps of [l] in reverse order, none of them
    raising, has left [steps] empty, and has left the world that the
    callbacks of [l], called last first on their arguments, make of the
    world it started in; whenever those calls all return, [do_rollback]
    returns with that world and that log; and they do when no callback
    of [l] can raise. *)
Theorem do_rollback_reverse_order (l : list PendingStep) addr oe os re (w : World) :
  let h := {| self := add_steps l (__init__ addr oe os re); world := w; calls := [] |} in
  (forall v h', do_rollback h = (Returned v, h') ->
     calls h' = (fun s => (s, None)) <$> reverse l /\
     invoked h' = reverse l /\
     steps (self h') = [] /\
     invoke_in_order body (reverse l) w = (Returned tt, world h')) /\
  (forall w', invoke_in_order body (reverse l) w = (Returned tt, w') ->
     do_rollback h =
       (Returned PyNone,
        {| self := __init__ addr oe os re; world := w';
           calls := (fun s => (s, None)) <$> reverse l |})) /\
  ((forall callback args kwargs w0, (callback, args, kwargs) ∈ l ->
      (body callback args kwargs w0).1 = Returned tt) ->
   exists h', do_rollback h = (Returned PyNone, h')).
Proof.
  intros h.
  destruct (do_rollback_spec h) as (pre & post & Hsplit & Hself & Hres).
  pose proof (do_rollback_world h) as Hworld.
  unfold h in Hsplit at 1. simpl in Hsplit. rewrite steps_add_steps in Hsplit.
  unfold h in Hworld at 1 2. simpl in Hworld. rewrite steps_add_steps in Hworld.
  simpl in Hsplit, Hworld. split; [|split].
  - intros v h' Hrun. rewrite Hrun in Hself, Hres, Hworld. simpl in Hself, Hres, Hworld.
    destruct Hres as (_ & -> & Hcalls). simpl in Hsplit. subst post.
    split; [done|]. split; [|split; [by rewrite Hself|done]].
    unfold invoked. rewrite Hcalls. simpl. rewrite <- list_fmap_compose.
    apply list_fmap_id.
  - intros w' Hcalls. rewrite Hcalls in Hworld.
    destruct (do_rollback h) as [[v|e] h'] eqn:Hrun; simpl in Hself, Hres, Hworld;
      [|discriminate Hworld].
    destruct Hres as (-> & -> & Hlog). simpl in Hsplit. subst post.
    injection Hworld as ->. f_equal.
    destruct h' as [r' w'' c']. simpl in *. subst r' c'.
    unfold h. simpl. by rewrite add_steps_flags.
  - intros Hok. destruct (do_rollback h) as [[v|e] h'] eqn:Hrun; simpl in Hres.
    + destruct Hres as (-> & _). by exists h'.
    + destruct Hres as (callback & args & kwargs & post' & w0 & -> & _ & Hb).
      specialize (Hok callback args kwargs w0). rewrite Hb in Hok.
      exfalso. simpl in Hok.
      assert ((callback, args, kwargs) ∈ l) as Hin by (rewrite Hsplit; set_solver).
      by specialize (Hok Hin).
Qed.

(** ** A step that raises *)

(** C5. If a step run during a [do_rollback] raises [e], then
    [do_rollback] raises [e]; that step is the last one run; the steps
    run are those registered after it, last first, then itself, each
    once; and the steps registered before it are left in [steps]. *)
Theorem do_rollback_raise_aborts (h : heap) (new : list (PendingStep * option (exn Exc)))
    (s : PendingStep) (e : exn Exc) :
  calls (do_rollback h).2 = calls h ++ new ->
  (s, Some e) ∈ new ->
  (do_rollback h).1 = Raised e /\
  exists pre post,
    steps (self h) = pre ++ s :: post /\
    steps (self (do_rollback h).2) = pre /\
    new = ((fun s => (s, None)) <$> reverse post) ++ [(s, Some e)].
Proof.
  intros Hnew Hin.
  destruct (do_rollback_spec h) as (pre & post & Hsplit & Hself & Hres).
  destruct (do_rollback h).1 as [v|e0].
  - destruct Hres as (_ & _ & Hcalls). rewrite Hcalls in Hnew.
    apply app_inv_head in Hnew. subst new.
    apply list_elem_of_fmap in Hin as (? & [=] & _).
  - destruct Hres as (callback & args & kwargs & post' & w & -> & Hcalls & _).
    rewrite Hcalls in Hnew. apply app_inv_head in Hnew. subst new.
    apply elem_of_app in Hin as [Hin|Hin].
    + apply list_elem_of_fmap in Hin as (? & [=] & _).
    + apply list_elem_of_singleton in Hin as [= -> ->].
      split; [done|]. exists pre, post'. by rewrite Hself.
Qed.

(** ** At most once *)

(** The steps run so far and the steps still pending, together, are
    permuted by a [do_rollback], whether it returns or raises. *)
Lemma do_rollback_conserves (h : heap) :
  invoked (do_rollback h).2 ++ steps (self (do_rollback h).2)
    ≡ₚ invoked h ++ steps (self h).
Proof.
  destruct (do_rollback_spec h) as (pre & post & Hsplit & Hself & Hres).
  rewrite Hself, Hsplit. unfold invoked. simpl.
  assert ((calls (do_rollback h).2).*1 = (calls h).*1 ++ reverse post) as ->.
  { destruct (do_rollback h).1 as [v|e].
    - destruct Hres as (_ & _ & ->). rewrite fmap_app, <- list_fmap_compose.
      by rewrite list_fmap_id.
    - destruct Hres as (callback & args & kwargs & post' & w & -> & -> & _).
      rewrite !fmap_app, <- list_fmap_compose, reverse_cons. simpl.
      by rewrite list_fmap_id. }
  rewrite reverse_Permutation, <- app_assoc.
  f_equiv. apply Permutation_app_comm.
Qed.

Lemma registered_cons (o : op) (ops : list op) :
  registered (o :: ops) = registered [o] ++ registered ops.
Proof. unfold registered. simpl. by rewrite app_nil_r. Qed.

Lemma exec_op_conserves (o : op) (h : heap) (R : list PendingStep) :
  invoked h ++ steps (self h) ⊆+ R ->
  invoked (exec_op o h).2 ++ steps (self (exec_op o h).2) ⊆+ R ++ registered [o].
Proof.
  intros HR. destruct o as [callback args kwargs| |]; simpl.
  - unfold invoked. simpl. rewrite app_assoc. by apply submseteq_app.
  - rewrite !app_nil_r. etrans; [|exact HR]. apply submseteq_inserts_r. done.
  - by rewrite app_nil_r, do_rollback_conserves.
Qed.

Lemma run_ops_conserves (ops : list op) (h : heap) (R : list PendingStep) :
  invoked h ++ steps (self h) ⊆+ R ->
  invoked (run_ops ops h) ++ steps (self (run_ops ops h)) ⊆+ R ++ registered ops.
Proof.
  revert h R. induction ops as [|o ops IH]; intros h R HR.
  - simpl. by rewrite app_nil_r.
  - rewrite (registered_cons o ops), app_assoc. apply IH. by apply exec_op_conserves.
Qed.

(** C7. Whatever calls of [add_step], [clear_steps] and [do_rollback] a
    caller makes on a new instance, in any order, and whichever of the
    [do_rollback] raise, the steps run are, counted with repetitions,
    among the steps registered: no registration is run twice, and when
    the steps registered are all different so are the steps run.  And a
    [do_rollback] that returns leaves [steps] empty. *)
Theorem steps_run_at_most_once (ops : list op) addr oe os re (w : World) :
  let h := run_ops ops {| self := __init__ addr oe os re; world := w; calls := [] |} in
  invoked h ⊆+ registered ops /\
  (NoDup (registered ops) -> NoDup (invoked h)) /\
  (forall v h', do_rollback h = (Returned v, h') -> steps (self h') = []).
Proof.
  intros h.
  assert (invoked h ⊆+ registered ops) as Hsub.
  { etrans; [apply (submseteq_inserts_r (steps (self h))); reflexivity|].
    apply (run_ops_conserves ops _ []). done. }
  split; [done|]. split.
  - intros Hnd. apply submseteq_sublist_l in Hsub as (k & Hk & Hperm).
    rewrite <- Hperm in Hnd. by apply (sublist_NoDup _ k).
  - intros v h' Hrun.
    destruct (do_rollback_spec h) as (pre & post & _ & Hself & Hres).
    rewrite Hrun in Hself, Hres. simpl in Hself, Hres.
    destruct Hres as (_ & -> & _). by rewrite Hself.
Qed.

(** ** Nothing to do *)

(** C8. With no step pending [do_rollback] returns at once: it runs
    nothing, raises nothing and changes nothing, so [steps] stays empty.
    Hence a second [do_rollback] after one that returned does nothing,
    and so does a [do_rollback] on an instance that never entered a
    scope: the coroutine reads [steps] and nothing of the scope. *)
Theorem do_rollback_empty_noop (h : heap) :
  (steps (self h) = [] -> do_rollback h = (Returned PyNone, h)) /\
  (forall v h', do_rollback h = (Returned v, h') ->
     do_rollback h' = (Returned PyNone, h')) /\
  (forall addr oe os re w log,
     exec_op op_do_rollback {| self := __init__ addr oe os re; world := w; calls := log |}
     = (Returned PyNone, {| self := __init__ addr oe os re; world := w; calls := log |})).
Proof.
  split; [apply do_rollback_nil|]. split.
  - intros v h' Hrun. apply do_rollback_nil.
    destruct (do_rollback_spec h) as (pre & post & _ & Hself & Hres).
    rewrite Hrun in Hself, Hres. simpl in Hself, Hres.
    destruct Hres as (_ & -> & _). by rewrite Hself.
  - intros. by apply do_rollback_nil.
Qed.

(** ** Discarding the steps *)

(** C9. [clear_steps] empties [steps] and runs nothing: the log of calls
    and the world are as before.  A second [clear_steps] changes nothing
    more, and a [do_rollback] after [clear_steps] runs nothing. *)
Theorem clear_steps_discards (h : heap) :
  steps (clear_steps (self h)) = [] /\
  exec_op op_clear_steps h =
    (Returned PyNone,
     {| self := clear_steps (self h); world := world h; calls := calls h |}) /\
  clear_steps (clear_steps (self h)) = clear_steps (self h) /\
  (exec_op op_clear_steps (exec_op op_clear_steps h).2).2 = (exec_op op_clear_steps h).2 /\
  do_rollback (exec_op op_clear_steps h).2 =
    (Returned PyNone, (exec_op op_clear_steps h).2).
Proof.
  do 4 (split; [reflexivity|]). by apply do_rollback_nil.
Qed.

(** ** The exit of the scope *)

(** [_handle_exit] case by case. *)
Lemma handle_exit_eq ty v tb (m : machine) :
  _handle_exit ty v tb m =
    let r := self (mem m) in
    let error := error_flag ty v tb in
    let out (m' : machine) : result Exc bool * machine :=
      if error && negb (raise_error r)
      then match tb with
           | Some t => (Returned (negb (_method_in_traceback r "do_rollback" t)), m')
           | None => (Raised AttributeError, m')
           end
      else (Returned (negb (raise_error r)), m') in
    if (error && on_error r) || (on_success r && negb error)
    then if running m
         then out {| mem := mem m; running := running m;
                     current_loop := current_loop m;
                     tasks := tasks m ++ [do_rollback];
                     launches := launches m ++ [by_create_task] |}
         else if current_loop m
         then match do_rollback (mem m) with
              | (Returned _, h') =>
                  out {| mem := h'; running := running m; current_loop := false;
                         tasks := tasks m; launches := launches m ++ [by_run] |}
              | (Raised e, h') =>
                  (Raised e, {| mem := h'; running := running m;
                                current_loop := false; tasks := tasks m;
                                launches := launches m ++ [by_run] |})
              end
         else (Raised RuntimeError, m)
    else out m.
Proof.
  cbv [_handle_exit bind gets modify ret raise is_running create_task asyncio_run
       liftH finally_ close_runner await_].
  destruct m as [h run cur q ls]. simpl.
  destruct (error_flag ty v tb), (on_error (self h)), (on_success (self h)),
    (raise_error (self h)), run, cur, tb; simpl; try done;
    by destruct (do_rollback h) as [[x|e] h'].
Qed.

(** The machine [_handle_exit] leaves behind. *)
Lemma handle_exit_machine ty v tb (m : machine) :
  (_handle_exit ty v tb m).2 =
    let r := self (mem m) in
    let error := error_flag ty v tb in
    if (error && on_error r) || (on_success r && negb error)
    then if running m
         then {| mem := mem m; running := running m;
                 current_loop := current_loop m;
                 tasks := tasks m ++ [do_rollback];
                 launches := launches m ++ [by_create_task] |}
         else if current_loop m
         then {| mem := (do_rollback (mem m)).2; running := running m;
                 current_loop := false;
                 tasks := tasks m; launches := launches m ++ [by_run] |}
         else m
    else m.
Proof.
  rewrite handle_exit_eq. simpl.
  assert (forall (b : bool) (q : machine),
            (if b then match tb with
                       | Some t =>
                           (Returned (negb (_method_in_traceback (self (mem m))
                                              "do_rollback" t)), q)
                       | None => (@Raised Exc bool AttributeError, q)
                       end
             else (Returned (negb (raise_error (self (mem m)))), q)).2 = q) as Hout.
  { intros [] q; [by destruct tb|done]. }
  destruct ((error_flag ty v tb && on_error (self (mem m)))
            || (on_success (self (mem m)) && negb (error_flag ty v tb)));
    [|by rewrite Hout].
  destruct (running m); [by rewrite Hout|].
  destruct (current_loop m); [|done].
  destruct (do_rollback (mem m)) as [[x|e] h']; [by rewrite Hout|done].
Qed.

Lemma rollback_due_iff (error oe os : bool) :
  (error && oe) || (os && negb error) = true <->
  (error = true /\ oe = true) \/ (os = true /\ error = false).
Proof. destruct error, oe, os; simpl; intuition congruence. Qed.

Lemma snoc_ne {A} (l : list A) (x : A) : l ++ [x] <> l.
Proof.
  intros Heq. apply (f_equal length) in Heq. rewrite length_app in Heq.
  simpl in Heq. lia.
Qed.

(** The policy of the exit where [asyncio.get_event_loop()] has a loop
    to return, that is on a running loop or in a thread that still has a
    current loop: a rollback is started, by [create_task] on a running
    loop and by [asyncio.run] otherwise, if and only if (error and
    on_error) or (on_success and not error); it is then [do_rollback]
    that is queued, or run to its end on the instance, and nothing at
    all happens otherwise. *)
Lemma handle_exit_policy ty v tb (m : machine) :
  let r := self (mem m) in
  let error := error_flag ty v tb in
  let m' := (_handle_exit ty v tb m).2 in
  running m = true \/ current_loop m = true ->
  ((exists how, launches m' = launches m ++ [how]) <->
     (error = true /\ on_error r = true) \/ (on_success r = true /\ error = false)) /\
  ((error = true /\ on_error r = true) \/ (on_success r = true /\ error = false) ->
     if running m
     then tasks m' = tasks m ++ [do_rollback] /\ mem m' = mem m
     else tasks m' = tasks m /\ mem m' = (do_rollback (mem m)).2) /\
  (launches m' = launches m -> m' = m).
Proof.
  intros r error m' Hloop. unfold m'. rewrite handle_exit_machine. cbv zeta.
  fold r error. rewrite <- rollback_due_iff.
  assert (running m = false -> current_loop m = true) as Hcur
    by (destruct Hloop as [->| ->]; done).
  destruct ((error && on_error r) || (on_success r && negb error)) eqn:Hdue.
  - split; [|split].
    + split; [intros _; done|intros _].
      destruct (running m); [|rewrite Hcur by done]; simpl; eexists; reflexivity.
    + intros _. destruct (running m); [done|]. by rewrite Hcur.
    + intros Hl. exfalso. destruct (running m); [|rewrite Hcur in Hl by done];
        simpl in Hl; by apply snoc_ne in Hl.
  - split; [|split].
    + split; [intros [how Hl]|done]. symmetry in Hl. by apply snoc_ne in Hl.
    + done.
    + done.
Qed.

(** With the default configuration the exit starts no rollback, with or
    without an error, and returns false, whatever the state of asyncio:
    the exception of the block, if any, goes on. *)
Lemma handle_exit_default ty v tb (m : machine) :
  on_error (self (mem m)) = false ->
  on_success (self (mem m)) = false ->
  raise_error (self (mem m)) = true ->
  _handle_exit ty v tb m = (Returned false, m).
Proof.
  intros Hoe Hos Hre. rewrite handle_exit_eq. cbv zeta.
  rewrite Hoe, Hos, Hre. simpl. by rewrite !andb_false_r.
Qed.

(** With no loop running and no current loop in the thread, an exit
    whose policy asks for the rollback raises [RuntimeError] at
    [asyncio.get_event_loop()] and has started nothing. *)
Lemma handle_exit_no_loop ty v tb (m : machine) :
  running m = false ->
  current_loop m = false ->
  (error_flag ty v tb && on_error (self (mem m)))
  || (on_success (self (mem m)) && negb (error_flag ty v tb)) = true ->
  _handle_exit ty v tb m = (Raised RuntimeError, m).
Proof.
  intros Hrun Hcur Hdue. rewrite handle_exit_eq. cbv zeta.
  by rewrite Hdue, Hrun, Hcur.
Qed.

(** A sync exit that has started the rollback leaves the thread without
    a current loop. *)
Lemma handle_exit_closes_loop ty v tb (m : machine) :
  running m = false ->
  current_loop m = true ->
  (error_flag ty v tb && on_error (self (mem m)))
  || (on_success (self (mem m)) && negb (error_flag ty v tb)) = true ->
  running (_handle_exit ty v tb m).2 = false /\
  current_loop (_handle_exit ty v tb m).2 = false.
Proof.
  intros Hrun Hcur Hdue. rewrite handle_exit_machine. cbv zeta.
  by rewrite Hdue, Hrun, Hcur.
Qed.

(** ** The scan of the traceback *)

(** [_method_in_traceback] finds a frame exactly when one of the entries
    after the first passes the test. *)
Lemma method_in_traceback_spec (r : Rollback) (name : string) (tb : traceback) :
  _method_in_traceback r name tb = true <->
  exists frame, frame ∈ tail (tb_entries tb) /\ frame_is_method r name frame = true.
Proof.
  unfold _method_in_traceback. rewrite _frames_tail.
  induction (tail (tb_entries tb)) as [|g l IH].
  - split; [done|]. intros (frame & Hin & _). by apply elem_of_nil in Hin.
  - destruct (frame_is_method r name g) eqn:Hg.
    + split; [|done]. intros _. exists g. split; [left|done].
    + rewrite IH. split.
      * intros (frame & Hin & Hf). exists frame. split; [by right|done].
      * intros (frame & Hin & Hf). exists frame. split; [|done].
        apply elem_of_cons in Hin as [->|Hin]; [congruence|done].
Qed.

(** What [_handle_exit] returns, when it returns, for a block that raised
    under [raise_error=False]. *)
Lemma handle_exit_decision ty v t (m : machine) b m' :
  raise_error (self (mem m)) = false ->
  _handle_exit ty v (Some t) m = (Returned b, m') ->
  b = negb (_method_in_traceback (self (mem m)) "do_rollback" t).
Proof.
  intros Hre. rewrite handle_exit_eq. cbv zeta. rewrite Hre.
  change (error_flag ty v (Some t)) with true. simpl.
  rewrite andb_false_r, orb_false_r.
  destruct (on_error (self (mem m))); [|by intros Heq; inversion Heq].
  destruct (running m); [by intros Heq; inversion Heq|].
  destruct (current_loop m); [|by intros Heq; inversion Heq].
  by destruct (do_rollback (mem m)) as [[x|e] h']; intros Heq; inversion Heq.
Qed.

(** C10. The scan never reads the first entry of the traceback: on a
    traceback of one entry [_method_in_traceback] is false, whatever the
    frame; replacing the first frame of any traceback does not change
    the answer; and so an exit under [raise_error=False] that is given a
    traceback of one entry returns true whenever it returns, even when
    that frame is of [do_rollback] of this instance. *)
Theorem method_in_traceback_skips_first (r : Rollback) (name : string) (f : frame) :
  _method_in_traceback r name (Traceback f None) = false /\
  (forall f' next,
     _method_in_traceback r name (Traceback f next)
     = _method_in_traceback r name (Traceback f' next)) /\
  (forall ty v (m : machine) b m',
     self (mem m) = r -> raise_error r = false ->
     _handle_exit ty v (Some (Traceback f None)) m = (Returned b, m') ->
     b = true).
Proof.
  split; [done|]. split; [done|].
  intros ty v m b m' <- Hre Hexit.
  by rewrite (handle_exit_decision _ _ _ _ _ _ Hre Hexit).
Qed.

(** ** The error flag *)

(** C6, amended. The error flag of the exit is true exactly when the
    traceback given is not [None]; the exception type and the exception
    value are not read: with the same traceback the exit does the same
    whatever they are. *)
Theorem error_flag_from_traceback ty v tb (m : machine) :
  (error_flag ty v tb = true <-> tb <> None) /\
  (forall ty' v', _handle_exit ty v tb m = _handle_exit ty' v' tb m).
Proof.
  split; [|done]. unfold error_flag. by rewrite bool_decide_eq_true.
Qed.

(** ** The exit of an [async with] *)

(** [__aexit__] does to the machine what [__exit__] does, and then
    raises: it never returns a decision. *)
Lemma aexit_never_returns ty v tb (m : machine) :
  (__aexit__ ty v tb m).2 = (__exit__ ty v tb m).2 /\
  exists e, (__aexit__ ty v tb m).1 = Raised e.
Proof.
  unfold __aexit__, __exit__, bind.
  destruct (_handle_exit ty v tb m) as [[b|e] m1]; simpl.
  - split; [by destruct m1|]. by exists TypeError.
  - split; [done|]. by exists e.
Qed.

(** * Further properties *)

(** ** Registering and draining *)

Lemma heap_eta (h : heap) :
  {| self := self h; world := world h; calls := calls h |} = h.
Proof. by destruct h. Qed.

(** X1. The step added last is the first to run, on the world as it is.
    When it returns, the rollback goes on with the instance as it was
    before [add_step]; when it raises, the instance is left exactly as
    it was before [add_step]. *)
Theorem add_step_runs_first (h : heap) callback args kwargs :
  do_rollback (with_self (add_step callback args kwargs) h) =
    match body callback args kwargs (world h) with
    | (Returned _, w) =>
        do_rollback {| self := self h; world := w;
                       calls := calls h ++ [((callback, args, kwargs), None)] |}
    | (Raised e, w) =>
        (Raised e, {| self := self h; world := w;
                      calls := calls h ++ [((callback, args, kwargs), Some e)] |})
    end.
Proof.
  rewrite (do_rollback_snoc (with_self (add_step callback args kwargs) h)
             (steps (self h)) callback args kwargs eq_refl).
  unfold after_turn. simpl.
  assert (set_steps (steps (self h)) (add_step callback args kwargs (self h)) = self h)
    as -> by (by destruct (self h)).
  done.
Qed.

(** X2. A rollback of [pre ++ post] is a rollback of [post] followed,
    when that one returns, by a rollback of [pre] on what it left; when
    the rollback of [post] raises, [pre] is untouched and stays in front
    of what was left of [post]. *)
Theorem do_rollback_app (h : heap) (pre post : list PendingStep) :
  steps (self h) = pre ++ post ->
  do_rollback h =
    match do_rollback (with_self (set_steps post) h) with
    | (Returned _, h1) => do_rollback (with_self (set_steps pre) h1)
    | (Raised e, h1) => (Raised e, with_self (set_steps (pre ++ steps (self h1))) h1)
    end.
Proof.
  revert h. induction post as [|[[callback args] kwargs] post IH] using rev_ind;
    intros h Hs.
  - rewrite app_nil_r in Hs.
    rewrite (do_rollback_nil (with_self (set_steps []) h) eq_refl).
    f_equal. destruct h as [r w c]. simpl in Hs. subst pre. by destruct r.
  - rewrite app_assoc in Hs.
    rewrite (do_rollback_snoc h _ _ _ _ Hs).
    match goal with
    | |- _ = match do_rollback ?h0 with _ => _ end =>
        rewrite (do_rollback_snoc h0 post callback args kwargs eq_refl)
    end.
    simpl. destruct (body callback args kwargs (world h)) as [[[]|e] w]; [|done].
    by rewrite (IH (after_turn (pre ++ post) (callback, args, kwargs) None w h) eq_refl).
Qed.

(** X3. After a [do_rollback] that raised, a second [do_rollback] takes
    up the steps that were left and, when it returns, has run them last
    first: the step that raised is not run again, and in the end every
    step has run once and [steps] is empty. *)
Theorem do_rollback_resumes (h h1 h2 : heap) (e : exn Exc) (v : pyval) :
  do_rollback h = (Raised e, h1) ->
  do_rollback h1 = (Returned v, h2) ->
  exists s post,
    steps (self h) = steps (self h1) ++ s :: post /\
    calls h2 = calls h ++ ((fun s => (s, None)) <$> reverse post)
                       ++ [(s, Some e)]
                       ++ ((fun s => (s, None)) <$> reverse (steps (self h1))) /\
    steps (self h2) = [].
Proof.
  intros Hrun1 Hrun2.
  destruct (do_rollback_spec h) as (pre & post & Hsplit & Hself & Hres).
  rewrite Hrun1 in Hself, Hres. simpl in Hself, Hres.
  destruct Hres as (callback & args & kwargs & post' & w & -> & Hcalls & _).
  destruct (do_rollback_spec h1) as (pre1 & post1 & Hsplit1 & Hself1 & Hres1).
  rewrite Hrun2 in Hself1, Hres1. simpl in Hself1, Hres1.
  destruct Hres1 as (_ & -> & Hcalls1). simpl in Hsplit1. subst post1.
  exists (callback, args, kwargs), post'.
  rewrite Hself. simpl. split; [done|]. split; [|by rewrite Hself1].
  rewrite Hcalls1, Hcalls, Hself. simpl. by rewrite <- !app_assoc.
Qed.

(** X4. Whatever the callbacks do, a [do_rollback] leaves the address
    and the three flags of the instance alone, only takes steps off the
    end of [steps], only adds to the log of calls, and logs one call for
    each step it has taken off. *)
Theorem do_rollback_invariants (h : heap) :
  oid (self (do_rollback h).2) = oid (self h) /\
  on_error (self (do_rollback h).2) = on_error (self h) /\
  on_success (self (do_rollback h).2) = on_success (self h) /\
  raise_error (self (do_rollback h).2) = raise_error (self h) /\
  steps (self (do_rollback h).2) `prefix_of` steps (self h) /\
  calls h `prefix_of` calls (do_rollback h).2 /\
  length (calls (do_rollback h).2) + length (steps (self (do_rollback h).2))
    = length (calls h) + length (steps (self h)).
Proof.
  destruct (do_rollback_spec h) as (pre & post & Hsplit & Hself & Hres).
  rewrite Hself, Hsplit. simpl. do 4 (split; [done|]).
  split; [by exists post|].
  destruct (do_rollback h).1 as [v|e].
  - destruct Hres as (_ & -> & ->). split; [by eexists|].
    rewrite !length_app, length_fmap, length_reverse. simpl. lia.
  - destruct Hres as (callback & args & kwargs & post' & w & -> & -> & _).
    split; [by eexists|].
    rewrite !length_app, length_fmap, length_reverse. simpl.
    rewrite <- Nat.add_assoc. f_equal. rewrite Nat.add_1_r. apply Nat.add_comm.
Qed.

(** When no callback of the pending steps can raise, [do_rollback]
    returns, having run them all, last first. *)
Lemma do_rollback_returns (h : heap) :
  (forall callback args kwargs w0,
     (callback, args, kwargs) ∈ steps (self h) ->
     (body callback args kwargs w0).1 = Returned tt) ->
  exists w',
    do_rollback h =
      (Returned PyNone,
       {| self := set_steps [] (self h); world := w';
          calls := calls h ++ ((fun s => (s, None)) <$> reverse (steps (self h))) |}).
Proof.
  intros Hok.
  destruct (do_rollback_spec h) as (pre & post & Hsplit & Hself & Hres).
  destruct (do_rollback h) as [[v|e] h'] eqn:Hrun; simpl in Hself, Hres.
  - destruct Hres as (-> & -> & Hcalls). simpl in Hsplit. subst post.
    exists (world h'). f_equal. rewrite <- Hself, <- Hcalls. symmetry. apply heap_eta.
  - destruct Hres as (callback & args & kwargs & post' & w0 & -> & _ & Hb).
    assert ((callback, args, kwargs) ∈ steps (self h)) as Hin
      by (rewrite Hsplit; set_solver).
    specialize (Hok callback args kwargs w0 Hin). by rewrite Hb in Hok.
Qed.

(** ** The frames of a traceback *)

(** X5. [_frames] yields the frames of all the entries of the traceback
    but the first, in order: the entries are the frame of the traceback
    itself followed by what [_frames] yields, so a traceback of [n + 1]
    entries yields [n] frames. *)
Theorem frames_all_but_first (tb : traceback) :
  tb_entries tb = tb_frame tb :: _frames tb /\
  S (length (_frames tb)) = length (tb_entries tb).
Proof.
  rewrite _frames_tail. by destruct tb as [f [next|]].
Qed.

(** X6. [_method_in_traceback] answers true exactly when some entry
    after the first has a frame whose local [self] is this very instance
    and whose code is named [name]: a frame of another instance, a frame
    without a local [self], or another method of this instance does not
    count. *)
Theorem method_in_traceback_iff (r : Rollback) (name : string) (tb : traceback) :
  _method_in_traceback r name tb = true <->
  exists frame,
    frame ∈ tail (tb_entries tb) /\
    f_locals frame !! "self"%string = Some (oid r) /\
    co_name (f_code frame) = name.
Proof.
  rewrite method_in_traceback_spec. unfold frame_is_method.
  split; intros (frame & Hin & Hf); exists frame; (split; [done|]).
  - apply andb_true_iff in Hf as [H1 H2].
    by apply bool_decide_eq_true in H1, H2.
  - destruct Hf as [H1 H2]. apply andb_true_iff.
    by rewrite !bool_decide_eq_true.
Qed.

(** ** What the exit returns and raises *)

(** X7. Whenever the exit returns, it returns true exactly when
    [raise_error] is false and either no traceback was given or no entry
    after the first of the traceback is a frame of [do_rollback] of this
    instance.  In particular it never returns true under
    [raise_error=True], and it returns true under [raise_error=False]
    when the block did not raise. *)
Theorem handle_exit_returns ty v tb (m : machine) (b : bool) (m' : machine) :
  _handle_exit ty v tb m = (Returned b, m') ->
  b = negb (raise_error (self (mem m)))
      && match tb with
         | None => true
         | Some t => negb (_method_in_traceback (self (mem m)) "do_rollback" t)
         end.
Proof.
  rewrite handle_exit_eq. cbv zeta.
  assert (forall q : machine,
            (if error_flag ty v tb && negb (raise_error (self (mem m)))
             then match tb with
                  | Some t =>
                      (Returned (negb (_method_in_traceback (self (mem m))
                                         "do_rollback" t)), q)
                  | None => (@Raised Exc bool AttributeError, q)
                  end
             else (Returned (negb (raise_error (self (mem m)))), q))
            = (Returned b, m') ->
            b = negb (raise_error (self (mem m)))
                && match tb with
                   | None => true
                   | Some t => negb (_method_in_traceback (self (mem m)) "do_rollback" t)
                   end) as Hout.
  { intros q. destruct tb as [t|]; simpl.
    - change (error_flag ty v (Some t)) with true.
      destruct (raise_error (self (mem m))); simpl; intros Heq; by inversion Heq.
    - change (error_flag ty v None) with false. simpl.
      intros Heq. inversion Heq. by rewrite andb_true_r. }
  destruct ((error_flag ty v tb && on_error (self (mem m)))
            || (on_success (self (mem m)) && negb (error_flag ty v tb)));
    [|apply Hout].
  destruct (running m); [apply Hout|].
  destruct (current_loop m); [|done].
  destruct (do_rollback (mem m)) as [[x|e] h']; [apply Hout|done].
Qed.

(** X8. With no loop running, in a thread that still has a current
    loop for [asyncio.get_event_loop()] to return, when the exit starts
    the rollback and the rollback raises, the exit raises that
    exception, whatever [raise_error] is and whatever the traceback
    holds: the traceback is not scanned, the heap is as the rollback
    left it, and the thread is left without a current loop. *)
Theorem handle_exit_rollback_raises ty v tb (m : machine) (e : exn Exc) (h' : heap) :
  running m = false ->
  current_loop m = true ->
  (error_flag ty v tb && on_error (self (mem m)))
  || (on_success (self (mem m)) && negb (error_flag ty v tb)) = true ->
  do_rollback (mem m) = (Raised e, h') ->
  _handle_exit ty v tb m =
    (Raised e, {| mem := h'; running := false; current_loop := false;
                  tasks := tasks m; launches := launches m ++ [by_run] |}).
Proof.
  intros Hrun Hcur Hdue Hrb. rewrite handle_exit_eq. cbv zeta.
  by rewrite Hdue, Hrun, Hcur, Hrb.
Qed.

(** X9. On a running loop the exit runs no callback and never raises:
    the instance, the world and the log of calls are as before, and a
    decision is returned, whether a rollback was queued or not and
    whatever the queued rollback will do. *)
Theorem handle_exit_on_running_loop ty v tb (m : machine) :
  running m = true ->
  mem (_handle_exit ty v tb m).2 = mem m /\
  exists b, (_handle_exit ty v tb m).1 = Returned b.
Proof.
  intros Hrun. rewrite handle_exit_machine, handle_exit_eq. cbv zeta. rewrite Hrun.
  split.
  - by destruct ((error_flag ty v tb && on_error (self (mem m)))
                 || (on_success (self (mem m)) && negb (error_flag ty v tb))).
  - destruct tb as [t|].
    + change (error_flag ty v (Some t)) with true.
      destruct (on_error (self (mem m))), (on_success (self (mem m))),
        (raise_error (self (mem m))); simpl; by eexists.
    + change (error_flag ty v None) with false.
      destruct (on_error (self (mem m))), (on_success (self (mem m))),
        (raise_error (self (mem m))); simpl; by eexists.
Qed.

(** X10. With no loop running, in a thread that still has a current
    loop for [asyncio.get_event_loop()] to return, an exit whose policy
    asks for the rollback, on an instance whose steps [l] were registered
    in order and cannot raise, runs all of [l] in reverse order before it
    returns: the world is the one the callbacks of [l], called last
    first, have made.  It leaves [steps] empty and the thread without a
    current loop, and returns the decision of X7. *)
Theorem exit_rolls_back_in_reverse (l : list PendingStep) addr oe os re (w : World)
    ty v tb :
  let m := {| mem := {| self := add_steps l (__init__ addr oe os re);
                        world := w; calls := [] |};
              running := false; current_loop := true;
              tasks := []; launches := [] |} in
  (error_flag ty v tb && oe) || (os && negb (error_flag ty v tb)) = true ->
  (forall callback args kwargs w0, (callback, args, kwargs) ∈ l ->
     (body callback args kwargs w0).1 = Returned tt) ->
  exists b m',
    _handle_exit ty v tb m = (Returned b, m') /\
    invoked (mem m') = reverse l /\
    invoke_in_order body (reverse l) w = (Returned tt, world (mem m')) /\
    steps (self (mem m')) = [] /\
    launches m' = [by_run] /\
    current_loop m' = false /\
    b = negb re && match tb with
                   | None => true
                   | Some t =>
                       negb (_method_in_traceback
                               (add_steps l (__init__ addr oe os re)) "do_rollback" t)
                   end.
Proof.
  intros m Hdue Hok. subst m.
  destruct (do_rollback_returns
              {| self := add_steps l (__init__ addr oe os re); world := w; calls := [] |})
    as (w' & Hrb).
  { intros callback args kwargs w0 Hin. apply Hok.
    simpl in Hin. by rewrite steps_add_steps in Hin. }
  assert (forall r0 : Rollback,
            on_error (add_steps l r0) = on_error r0 /\
            on_success (add_steps l r0) = on_success r0 /\
            raise_error (add_steps l r0) = raise_error r0) as Hflags.
  { clear. induction l as [|[[c a] k] l IH]; intros r0; simpl; [done|].
    destruct (IH (add_step c a k r0)) as (-> & -> & ->). done. }
  destruct (Hflags (__init__ addr oe os re)) as (Hoe & Hos & Hre). simpl in Hoe, Hos, Hre.
  pose proof (do_rollback_world
                {| self := add_steps l (__init__ addr oe os re);
                   world := w; calls := [] |}) as Hw.
  rewrite Hrb in Hw. simpl in Hw. rewrite steps_add_steps in Hw. simpl in Hw.
  rewrite handle_exit_eq. cbv zeta. simpl in *. rewrite Hoe, Hos, Hre, Hdue, Hrb.
  assert (((fun s : PendingStep => (s, @None (exn Exc))) <$>
             reverse (steps (add_steps l (__init__ addr oe os re)))).*1
          = reverse l) as Hinv.
  { rewrite steps_add_steps, <- list_fmap_compose. simpl. apply list_fmap_id. }
  destruct tb as [t|].
  - change (error_flag ty v (Some t)) with true.
    destruct re; simpl; eexists _, _; (split; [reflexivity|]); by unfold invoked.
  - change (error_flag ty v None) with false. simpl.
    eexists _, _. split; [reflexivity|]. unfold invoked. simpl.
    by rewrite andb_true_r.
Qed.

(** ** The exit of an [async with], in general *)

(** X11. For every configuration and every trio, [__aexit__] leaves the
    machine as [__exit__] does and never returns: it raises [TypeError]
    where [__exit__] returns a decision, and the exception of the
    rollback where [__exit__] raises it. *)
Theorem aexit_always_raises ty v tb (m : machine) :
  (__aexit__ ty v tb m).2 = (__exit__ ty v tb m).2 /\
  (__aexit__ ty v tb m).1 =
    match (__exit__ ty v tb m).1 with
    | Returned _ => Raised TypeError
    | Raised e => Raised e
    end.
Proof.
  unfold __aexit__, __exit__, bind.
  destruct (_handle_exit ty v tb m) as [[b|e] m1]; simpl; [|done].
  by destruct m1.
Qed.

End RegistryFacts.

(** The third of four steps raises: the fourth and the third have run,
    the first two are still in [steps]. *)
Lemma do_rollback_raise_aborts_witness :
  (do_rollback ex_iscoroutinefunction ex_body (ex_heap ex_failing)).1
    = Raised (UserError "boom"%string) /\
  exists pre post,
    steps ex_failing = pre ++ ex_step 7 2 :: post /\
    steps (self (do_rollback ex_iscoroutinefunction ex_body (ex_heap ex_failing)).2) = pre /\
    [(ex_step 5 3, None); (ex_step 7 2, Some (UserError "boom"%string))]
      = ((fun s => (s, None)) <$> reverse post)
        ++ [(ex_step 7 2, Some (UserError "boom"%string))].
Proof.
  apply (do_rollback_raise_aborts ex_iscoroutinefunction ex_body (ex_heap ex_failing)).
  - reflexivity.
  - apply list_elem_of_In. simpl. right. left. reflexivity.
Defined.

(** The scenario of the test suite: [f] is called with 2, then 1 (and its
    keyword argument), then 0, and the world holds the three arguments
    in that order. *)
Lemma do_rollback_reverse_order_witness :
  invoked (do_rollback ex_iscoroutinefunction ex_body (ex_heap ex_three)).2
    = [ex_step 3 2; ex_step_kw 3 1 "key" 9; ex_step 3 0] /\
  world (do_rollback ex_iscoroutinefunction ex_body (ex_heap ex_three)).2 = [2; 1; 0] /\
  do_rollback ex_iscoroutinefunction ex_body (ex_heap ex_three)
  = (Returned PyNone,
     {| self := __init__ 1 false false true; world := [2; 1; 0];
        calls := (fun s => (s, None))
                   <$> reverse [ex_step 3 0; ex_step_kw 3 1 "key" 9; ex_step 3 2] |}) /\
  exists h', do_rollback ex_iscoroutinefunction ex_body (ex_heap ex_three)
             = (Returned PyNone, h').
Proof.
  destruct (do_rollback_reverse_order ex_iscoroutinefunction ex_body
              [ex_step 3 0; ex_step_kw 3 1 "key" 9; ex_step 3 2] 1 false false true [])
    as (Hret & Hcalls & Hok).
  destruct (Hret PyNone _ eq_refl) as (_ & Hinv & _ & Hworld).
  split; [exact Hinv|]. split; [|split].
  - exact (eq_sym (f_equal snd Hworld)).
  - apply Hcalls. reflexivity.
  - apply Hok. intros callback args kwargs w0 Hin.
    apply list_elem_of_In in Hin. simpl in Hin.
    destruct Hin as [[= <- <- <-]|[[= <- <- <-]|[[= <- <- <-]|[]]]]; reflexivity.
Defined.

(** C6 as stated fails: an exit given an exception value and no
    traceback has its error flag down, and under [on_error=True] starts
    no rollback. *)
Lemma error_flag_value_counterexample :
  ~ (@error_flag string string (Some "RollbackError"%string) (Some "test"%string) None = true
     <-> Some "test"%string <> @None string) /\
  _handle_exit ex_iscoroutinefunction ex_body
    (Some "RollbackError"%string) (Some "test"%string) None (ex_machine ex_on_error)
  = (Returned false, ex_machine ex_on_error).
Proof.
  split; [|reflexivity]. intros [_ Hflag].
  assert (@error_flag string string (Some "RollbackError"%string)
            (Some "test"%string) None = true) as Hf by (by apply Hflag).
  discriminate Hf.
Qed.

(** C3 on the code. An exit under [raise_error=False] is given a
    traceback of one entry, the frame of [do_rollback] of this very
    instance: the frame passes the test of the scan and is in the
    traceback, yet the exit returns true and the exception is swallowed.
    The same frame one entry further is found, and the exit returns
    false. *)
Theorem exit_swallows_first_rollback_frame :
  frame_is_method ex_quiet "do_rollback" ex_rollback_frame = true /\
  ex_rollback_frame ∈ tb_entries (Traceback ex_rollback_frame None) /\
  __exit__ ex_iscoroutinefunction ex_body
    (Some "RollbackError"%string) (Some "test"%string)
    (Some (Traceback ex_rollback_frame None)) (ex_machine ex_quiet)
  = (Returned true, ex_machine ex_quiet) /\
  __exit__ ex_iscoroutinefunction ex_body
    (Some "RollbackError"%string) (Some "test"%string)
    (Some (Traceback ex_caller_frame (Some (Traceback ex_rollback_frame None))))
    (ex_machine ex_quiet)
  = (Returned false, ex_machine ex_quiet).
Proof.
  split; [reflexivity|]. split; [apply list_elem_of_In; by left|].
  split; reflexivity.
Qed.

(** C4 on the code. [async with Rollback(on_success=True)] with one step,
    the block ending without error on a running loop: [__aexit__] raises
    [TypeError]; [do_rollback] has only been queued, the step has not
    run and is still in [steps].  [__exit__] on the same machine leaves
    the same machine and returns false.  The step runs when the loop
    takes up the task, after the exit. *)
Theorem aexit_awaits_a_bool :
  @__aexit__ nat nat string string (list nat) ex_iscoroutinefunction ex_body
    None None None (ex_machine_async ex_on_success)
  = (Raised TypeError,
     {| mem := ex_heap ex_on_success; running := true; current_loop := true;
        tasks := [do_rollback ex_iscoroutinefunction ex_body];
        launches := [by_create_task] |}) /\
  @__exit__ nat nat string string (list nat) ex_iscoroutinefunction ex_body
    None None None (ex_machine_async ex_on_success)
  = (Returned false,
     {| mem := ex_heap ex_on_success; running := true; current_loop := true;
        tasks := [do_rollback ex_iscoroutinefunction ex_body];
        launches := [by_create_task] |}) /\
  steps ex_on_success = [ex_step 3 0] /\
  invoked (mem (run_next_task
                  (@__aexit__ nat nat string string (list nat)
                     ex_iscoroutinefunction ex_body
                     None None None (ex_machine_async ex_on_success)).2).2)
  = [ex_step 3 0].
Proof. repeat split. Qed.

(** C2 on the code. [r = Rollback(on_success=True)] in plain code in the
    main thread.  A first [with r:] registers a step and ends well: the
    exit runs the step with [asyncio.run] and returns false, and the
    thread is left without a current loop.  A second [with r:] registers
    another step and ends well: the policy asks for the rollback as
    before, yet the exit raises [RuntimeError] at
    [asyncio.get_event_loop()]; no rollback is started, the step has not
    run and is still in [steps]. *)
Theorem exit_after_run_starts_nothing :
  @_handle_exit nat nat string string (list nat) ex_iscoroutinefunction ex_body
    None None None (ex_machine ex_on_success)
  = (Returned false,
     {| mem := {| self := __init__ 1 false true true; world := [0];
                  calls := [(ex_step 3 0, None)] |};
        running := false; current_loop := false; tasks := [];
        launches := [by_run] |}) /\
  on_success (add_step 5 [1] ∅ (__init__ 1 false true true)) = true /\
  @_handle_exit nat nat string string (list nat) ex_iscoroutinefunction ex_body
    None None None
    (with_mem (with_self (add_step 5 [1] ∅))
       (@_handle_exit nat nat string string (list nat) ex_iscoroutinefunction ex_body
          None None None (ex_machine ex_on_success)).2)
  = (Raised RuntimeError,
     {| mem := {| self := add_step 5 [1] ∅ (__init__ 1 false true true); world := [0];
                  calls := [(ex_step 3 0, None)] |};
        running := false; current_loop := false; tasks := [];
        launches := [by_run] |}).
Proof. repeat split. Qed.

(** The caller [ex_ops]: step 4 and the raising step 7 run in the first
    rollback, steps 3 and 5 in the second, step 6 never. *)
Lemma steps_run_at_most_once_witness :
  invoked (run_ops ex_iscoroutinefunction ex_body ex_ops (ex_heap (Rollback_default 1)))
    ⊆+ [ex_step 3 0; ex_step 7 1; ex_step 4 2; ex_step 5 3; ex_step 6 4] /\
  NoDup (invoked (run_ops ex_iscoroutinefunction ex_body ex_ops
                    (ex_heap (Rollback_default 1)))) /\
  steps (self (do_rollback ex_iscoroutinefunction ex_body
                 (run_ops ex_iscoroutinefunction ex_body ex_ops
                    (ex_heap (Rollback_default 1)))).2) = [].
Proof.
  destruct (steps_run_at_most_once ex_iscoroutinefunction ex_body ex_ops
              1 false false true []) as (Hsub & Hnd & Hempty).
  split; [exact Hsub|]. split.
  - apply Hnd. apply (bool_decide_unpack _). reflexivity.
  - apply (Hempty PyNone). reflexivity.
Defined.

(** [Rollback().do_rollback()], and a second [do_rollback] after the
    three steps of [ex_three] have run. *)
Lemma do_rollback_empty_noop_witness :
  do_rollback ex_iscoroutinefunction ex_body (ex_heap (Rollback_default 1))
  = (Returned PyNone, ex_heap (Rollback_default 1)) /\
  do_rollback ex_iscoroutinefunction ex_body
    (do_rollback ex_iscoroutinefunction ex_body (ex_heap ex_three)).2
  = (Returned PyNone, (do_rollback ex_iscoroutinefunction ex_body (ex_heap ex_three)).2).
Proof.
  split.
  - destruct (do_rollback_empty_noop ex_iscoroutinefunction ex_body
                (ex_heap (Rollback_default 1))) as (Hempty & _ & _).
    apply Hempty. reflexivity.
  - destruct (do_rollback_empty_noop ex_iscoroutinefunction ex_body
                (ex_heap ex_three)) as (_ & Hagain & _).
    apply (Hagain PyNone). reflexivity.
Defined.

(** The exit of [ex_quiet] given the one frame of its own
    [do_rollback]. *)
Lemma method_in_traceback_skips_first_witness :
  _method_in_traceback ex_quiet "do_rollback" (Traceback ex_rollback_frame None) = false /\
  (_handle_exit ex_iscoroutinefunction ex_body
     (Some "RollbackError"%string) (Some "test"%string)
     (Some (Traceback ex_rollback_frame None)) (ex_machine ex_quiet)).1
  = Returned true.
Proof.
  destruct (method_in_traceback_skips_first (ExcType:=string) (Exc:=string)
              (World:=list nat) ex_iscoroutinefunction ex_body
              ex_quiet "do_rollback" ex_rollback_frame) as (Hone & _ & Hexit).
  split; [exact Hone|].
  destruct (_handle_exit ex_iscoroutinefunction ex_body
              (Some "RollbackError"%string) (Some "test"%string)
              (Some (Traceback ex_rollback_frame None)) (ex_machine ex_quiet))
    as [[b|e] m'] eqn:Hrun.
  - simpl. f_equal.
    apply (Hexit (Some "RollbackError"%string) (Some "test"%string)
             (ex_machine ex_quiet) b m'); [reflexivity|reflexivity|exact Hrun].
  - discriminate Hrun.
Defined.

(** What [ex_ops] runs, in order. *)
Example ex_ops_invoked :
  invoked (run_ops ex_iscoroutinefunction ex_body ex_ops (ex_heap (Rollback_default 1)))
  = [ex_step 4 2; ex_step 7 1; ex_step 5 3; ex_step 3 0].
Proof. reflexivity. Qed.

(** Rolling back the four steps of [ex_failing] is rolling back the last
    two, which raises, with the first two kept. *)
Lemma do_rollback_app_witness :
  do_rollback ex_iscoroutinefunction ex_body (ex_heap ex_failing) =
    match do_rollback ex_iscoroutinefunction ex_body
            (with_self (set_steps [ex_step 7 2; ex_step 5 3]) (ex_heap ex_failing)) with
    | (Returned _, h1) =>
        do_rollback ex_iscoroutinefunction ex_body
          (with_self (set_steps [ex_step 3 0; ex_step 4 1]) h1)
    | (Raised e, h1) =>
        (Raised e,
         with_self (set_steps ([ex_step 3 0; ex_step 4 1] ++ steps (self h1))) h1)
    end.
Proof.
  apply (do_rollback_app ex_iscoroutinefunction ex_body (ex_heap ex_failing)
           [ex_step 3 0; ex_step 4 1] [ex_step 7 2; ex_step 5 3]).
  reflexivity.
Defined.

(** [ex_failing] rolled back twice: the first rollback raises at step 7,
    the second runs the two steps left. *)
Lemma do_rollback_resumes_witness :
  exists s post,
    steps ex_failing
    = steps (self (do_rollback ex_iscoroutinefunction ex_body (ex_heap ex_failing)).2)
      ++ s :: post /\
    calls (do_rollback ex_iscoroutinefunction ex_body
             (do_rollback ex_iscoroutinefunction ex_body (ex_heap ex_failing)).2).2
    = [] ++ ((fun s => (s, None)) <$> reverse post)
         ++ [(s, Some (UserError "boom"%string))]
         ++ ((fun s => (s, None)) <$>
               reverse (steps (self (do_rollback ex_iscoroutinefunction ex_body
                                       (ex_heap ex_failing)).2))) /\
    steps (self (do_rollback ex_iscoroutinefunction ex_body
                   (do_rollback ex_iscoroutinefunction ex_body
                      (ex_heap ex_failing)).2).2) = [].
Proof.
  apply (do_rollback_resumes ex_iscoroutinefunction ex_body (ex_heap ex_failing)
           (do_rollback ex_iscoroutinefunction ex_body (ex_heap ex_failing)).2
           (do_rollback ex_iscoroutinefunction ex_body
              (do_rollback ex_iscoroutinefunction ex_body (ex_heap ex_failing)).2).2
           (UserError "boom"%string) PyNone); reflexivity.
Defined.

(** The exit of [ex_quiet] given the frame of its [do_rollback] as second
    entry returns false. *)
Lemma handle_exit_returns_witness :
  false = negb (raise_error ex_quiet)
          && negb (_method_in_traceback ex_quiet "do_rollback"
                     (Traceback ex_caller_frame (Some (Traceback ex_rollback_frame None)))).
Proof.
  apply (handle_exit_returns ex_iscoroutinefunction ex_body
           (Some "RollbackError"%string) (Some "test"%string)
           (Some (Traceback ex_caller_frame (Some (Traceback ex_rollback_frame None))))
           (ex_machine ex_quiet) false (ex_machine ex_quiet)).
  reflexivity.
Defined.

(** [with Rollback(on_error=True, raise_error=False)], two steps, the
    block raises and so does the second step: the exit raises the
    exception of the step, the first step is left. *)
Lemma handle_exit_rollback_raises_witness :
  _handle_exit ex_iscoroutinefunction ex_body
    (Some "RollbackError"%string) (Some "test"%string)
    (Some (Traceback ex_caller_frame None)) (ex_machine ex_on_error_failing)
  = (Raised (UserError "boom"%string),
     {| mem := {| self := add_steps [ex_step 3 0] (__init__ 1 true false false);
                  world := [];
                  calls := [(ex_step 7 1, Some (UserError "boom"%string))] |};
        running := false; current_loop := false; tasks := [];
        launches := [by_run] |}).
Proof.
  apply (handle_exit_rollback_raises ex_iscoroutinefunction ex_body
           (Some "RollbackError"%string) (Some "test"%string)
           (Some (Traceback ex_caller_frame None)) (ex_machine ex_on_error_failing));
    reflexivity.
Defined.

(** The exit of [ex_on_success] on a running loop. *)
Lemma handle_exit_on_running_loop_witness :
  mem (@_handle_exit nat nat string string (list nat) ex_iscoroutinefunction ex_body
         None None None (ex_machine_async ex_on_success)).2
  = ex_heap ex_on_success /\
  exists b,
    (@_handle_exit nat nat string string (list nat) ex_iscoroutinefunction ex_body
       None None None (ex_machine_async ex_on_success)).1 = Returned b.
Proof.
  apply (handle_exit_on_running_loop (ExcType:=string) ex_iscoroutinefunction ex_body
           None None None (ex_machine_async ex_on_success)).
  reflexivity.
Defined.

(** [with Rollback(on_success=True)], the three steps of the test suite,
    the block ends well. *)
Lemma exit_rolls_back_in_reverse_witness :
  exists b m',
    @_handle_exit nat nat string string (list nat) ex_iscoroutinefunction ex_body
      None None None
      {| mem := {| self := add_steps [ex_step 3 0; ex_step_kw 3 1 "key" 9; ex_step 3 2]
                             (__init__ 1 false true true);
                   world := []; calls := [] |};
         running := false; current_loop := true; tasks := []; launches := [] |}
    = (Returned b, m') /\
    invoked (mem m') = reverse [ex_step 3 0; ex_step_kw 3 1 "key" 9; ex_step 3 2] /\
    (@Returned string unit tt, [2; 1; 0]) = (Returned tt, world (mem m')) /\
    steps (self (mem m')) = [] /\
    launches m' = [by_run] /\
    current_loop m' = false /\
    b = negb true && true.
Proof.
  apply (exit_rolls_back_in_reverse (ExcType:=string) ex_iscoroutinefunction ex_body
           [ex_step 3 0; ex_step_kw 3 1 "key" 9; ex_step 3 2] 1 false true true []
           None None None).
  - reflexivity.
  - intros callback args kwargs w0 Hin.
    apply list_elem_of_In in Hin. simpl in Hin.
    destruct Hin as [[= <- <- <-]|[[= <- <- <-]|[[= <- <- <-]|[]]]]; reflexivity.
Defined.
